(** * Scalar Kalman filter of KalmanFilter.ipynb

    The notebook defines two functions over Python numbers,

      def add_gaussians(x, P, u, Q):
          return (x+u, P+Q)
      def multiply_gaussians(z, R, x, P):
          kalman_gain = P/(P+R)
          residual = z - x
          return (x + kalman_gain*residual, (P*R)/(P+R))

    Both are duck-typed.  They are embedded twice: over exact rationals in
    canonical form ([Qc], what the functions compute on [fractions.Fraction]
    arguments: no rounding, no overflow), and, in [Float64], over binary64
    floats, what they compute on Python [float] arguments.  Python's [/]
    raises [ZeroDivisionError] on a zero divisor; that is the only way
    either function can fail.  Properties stated over [Qc] are properties of
    exact arithmetic; where rounding or overflow breaks one on floats, the
    float embedding shows it. *)

From Stdlib Require Import List Bool ZArith QArith Qcanon Qcabs Lqa Lia.
From Stdlib Require Import PrimFloat.
Import ListNotations.

Local Open Scope Qc_scope.

(** ** Exceptions and results *)

(** [ZeroDivisionError] is the exception Python raises; the other three are
    the error kinds the specification names. *)
Inductive exn : Type :=
| ZeroDivisionError
| InvalidInputError
| DimensionMismatchError
| SingularInnovationCovarianceError.

Inductive result (A : Type) : Type :=
| Ok (a : A)
| Raise (e : exn).

Arguments Ok {A} a.
Arguments Raise {A} e.

Definition bind {A B : Type} (r : result A) (k : A -> result B) : result B :=
  match r with
  | Ok a => k a
  | Raise e => Raise e
  end.

Notation "'let*' x ':=' r 'in' k" := (bind r (fun x => k))
  (at level 10, x name, r at level 100, k at level 200).

(** Rational literals. *)
Definition q (n : Z) (d : positive) : Qc := Q2Qc (n # d).

(** Python's true division. *)
Definition pdiv (a b : Qc) : result Qc :=
  if Qc_eq_dec b 0 then Raise ZeroDivisionError else Ok (a / b).

(** ** The two functions of the notebook *)

(** A belief is the tuple [(mean, variance)] the functions return. *)
Definition belief : Type := (Qc * Qc)%type.

Definition mean (b : belief) : Qc := fst b.
Definition variance (b : belief) : Qc := snd b.

Definition add_gaussians (x P u Q : Qc) : belief :=
  (x + u, P + Q).

(** The local [kalman_gain = P/(P+R)] of [multiply_gaussians]. *)
Definition kalman_gain (P R : Qc) : result Qc :=
  pdiv P (P + R).

Definition multiply_gaussians (z R x P : Qc) : result belief :=
  let* kalman_gain := kalman_gain P R in
  let residual := z - x in
  let* v := pdiv (P * R) (P + R) in
  Ok (x + kalman_gain * residual, v).

(** ** The scalar filter: one belief threaded through calls *)

(** The specification's [predict(u, Q)] and [update(z, R)] are the two
    functions applied to the current belief. *)
Definition scalar_predict (b : belief) (u Q : Qc) : result belief :=
  Ok (add_gaussians (mean b) (variance b) u Q).

Definition scalar_update (b : belief) (z R : Qc) : result belief :=
  multiply_gaussians z R (mean b) (variance b).

Inductive call : Type :=
| Predict (u Q : Qc)
| Update (z R : Qc).

Definition apply_call (b : belief) (c : call) : result belief :=
  match c with
  | Predict u Q => scalar_predict b u Q
  | Update z R => scalar_update b z R
  end.

(** The driver: the states returned by a sequence of calls, each call
    applied to the state the previous one returned.  An exception ends the
    run, as it does in Python. *)
Fixpoint run {S C : Type} (step : S -> C -> result S) (s : S) (cs : list C)
  : list S :=
  match cs with
  | [] => []
  | c :: cs' =>
      match step s c with
      | Ok s' => s' :: run step s' cs'
      | Raise _ => []
      end
  end.

Definition trace : belief -> list call -> list belief := run apply_call.

(** A call is valid when its noise variance is not negative. *)
Definition valid_call (c : call) : Prop :=
  match c with
  | Predict _ Q => 0 <= Q
  | Update _ R => 0 <= R
  end.

(** One time step of the driver: predict, then update. *)
Definition time_step (u Q z R : Qc) : list call :=
  [Predict u Q; Update z R].

Fixpoint time_steps (n : nat) (u Q z R : Qc) : list call :=
  match n with
  | O => []
  | S n' => time_step u Q z R ++ time_steps n' u Q z R
  end.

Fixpoint nonincreasing (l : list Qc) : Prop :=
  match l with
  | [] => True
  | a :: t =>
      match t with
      | [] => True
      | b :: _ => b <= a /\ nonincreasing t
      end
  end.

Fixpoint nonincreasingb (l : list Qc) : bool :=
  match l with
  | [] => true
  | a :: t =>
      match t with
      | [] => true
      | b :: _ => Qle_bool b a && nonincreasingb t
      end
  end.

(** ** The two functions on Python floats *)

(** The same two functions on binary64.  Float [+], [-], [*] round, overflow
    to infinity and propagate NaN without raising; [/] raises
    [ZeroDivisionError] when the divisor compares equal to zero. *)
Module Float64.

Definition pdiv (a b : float) : result float :=
  if PrimFloat.eqb b 0%float then Raise ZeroDivisionError
  else Ok (a / b)%float.

Definition add_gaussians (x P u Q : float) : float * float :=
  ((x + u)%float, (P + Q)%float).

Definition kalman_gain (P R : float) : result float :=
  pdiv P (P + R)%float.

Definition multiply_gaussians (z R x P : float) : result (float * float) :=
  let* kalman_gain := kalman_gain P R in
  let residual := (z - x)%float in
  let* v := pdiv (P * R)%float (P + R)%float in
  Ok ((x + kalman_gain * residual)%float, v).

End Float64.

(** ** The matrix filter *)

(** The numbers a filter computes with: the exact rationals, or binary64. *)
Record Arith : Type := {
  num : Type;
  n_zero : num;
  n_one : num;
  n_add : num -> num -> num;
  n_sub : num -> num -> num;
  n_mul : num -> num -> num;
  n_div : num -> num -> num;
  n_abs : num -> num;
  n_eqb : num -> num -> bool;
  n_ltb : num -> num -> bool;
  n_leb : num -> num -> bool
}.

Definition Rational : Arith := {|
  num := Qc;
  n_zero := 0;
  n_one := 1;
  n_add := Qcplus;
  n_sub := Qcminus;
  n_mul := Qcmult;
  n_div := Qcdiv;
  n_abs := Qcabs;
  n_eqb := Qc_eq_bool;
  n_ltb := fun a b => if Qclt_le_dec a b then true else false;
  n_leb := fun a b => if Qclt_le_dec b a then false else true
|}.

Definition Binary64 : Arith := {|
  num := float;
  n_zero := 0%float;
  n_one := 1%float;
  n_add := PrimFloat.add;
  n_sub := PrimFloat.sub;
  n_mul := PrimFloat.mul;
  n_div := PrimFloat.div;
  n_abs := PrimFloat.abs;
  n_eqb := PrimFloat.eqb;
  n_ltb := PrimFloat.ltb;
  n_leb := PrimFloat.leb
|}.

(** Modelled from the spec: the matrix filter [LinearKalmanFilter] (section
    4.2 of the specification).  The notebook gives it only as the table of
    formulas in its last markdown cell,

      x = F x + B u             P = F P F^T + Q
      y = z - H x               K = P H^T (H P H^T + R)^-1
      x = x + K y               P = (I - K H) P

    and leaves its code cell empty.  Vectors are lists, matrices are lists of
    rows.  The inverse is the adjugate divided by the determinant; the
    condition number is taken in the infinity norm (the specification names
    no norm).  A noise covariance must be symmetric positive semi-definite
    (sections 3 and 7): symmetric, with no negative principal minor.  The
    configured noise floor is for the caller to inject before a retry: the
    filter itself rejects a singular innovation covariance. *)
Module LinearKalmanFilter.

Section Over.

Variable A : Arith.

Local Abbreviation T := (num A).
Local Abbreviation zero := (n_zero A).
Local Abbreviation one := (n_one A).
Local Abbreviation add := (n_add A).
Local Abbreviation sub := (n_sub A).
Local Abbreviation mul := (n_mul A).
Local Abbreviation div := (n_div A).

Definition vector : Type := list T.
Definition matrix : Type := list (list T).

Record KalmanState : Type := { x : vector; P : matrix }.

Record Config : Type := {
  minNoiseFloor : T;
  conditionNumberThreshold : T;
  symmetrizeAfterUpdate : bool
}.

Definition has_length (n : nat) (v : vector) : bool :=
  Nat.eqb (length v) n.

Definition has_shape (r c : nat) (M : matrix) : bool :=
  Nat.eqb (length M) r && forallb (has_length c) M.

Definition zip_with (f : T -> T -> T) (u v : vector) : vector :=
  map (fun p => f (fst p) (snd p)) (combine u v).

Definition vadd : vector -> vector -> vector := zip_with add.
Definition vsub : vector -> vector -> vector := zip_with sub.

Definition sum (v : vector) : T := fold_right add zero v.

Definition dot (u v : vector) : T := sum (zip_with mul u v).

Definition col (j : nat) (M : matrix) : vector :=
  map (fun row => nth j row zero) M.

Definition ncols (M : matrix) : nat :=
  match M with
  | [] => O
  | row :: _ => length row
  end.

Definition transpose (M : matrix) : matrix :=
  map (fun j => col j M) (seq 0 (ncols M)).

Definition mulmv (M : matrix) (v : vector) : vector :=
  map (fun row => dot row v) M.

Definition mulmm (M N : matrix) : matrix :=
  map (fun row => map (fun j => dot row (col j N)) (seq 0 (ncols N))) M.

Definition addmm (M N : matrix) : matrix :=
  map (fun p => vadd (fst p) (snd p)) (combine M N).

Definition submm (M N : matrix) : matrix :=
  map (fun p => vsub (fst p) (snd p)) (combine M N).

Definition scale (a : T) (M : matrix) : matrix :=
  map (map (mul a)) M.

Definition identity (n : nat) : matrix :=
  map (fun i => map (fun j => if Nat.eqb i j then one else zero) (seq 0 n))
      (seq 0 n).

Fixpoint remove_nth {B : Type} (j : nat) (l : list B) : list B :=
  match l with
  | [] => []
  | a :: t =>
      match j with
      | O => t
      | S j' => a :: remove_nth j' t
      end
  end.

Definition sign (i : nat) : T := if Nat.even i then one else sub zero one.

(** Determinant of an [n] by [n] matrix, expanded along the first row. *)
Fixpoint det (n : nat) (M : matrix) : T :=
  match n with
  | O => one
  | S n' =>
      match M with
      | [] => zero
      | row :: rest =>
          sum (map (fun j => mul (mul (sign j) (nth j row zero))
                                 (det n' (map (remove_nth j) rest)))
                   (seq 0 n))
      end
  end.

Definition minor (i j : nat) (M : matrix) : matrix :=
  map (remove_nth j) (remove_nth i M).

Definition adjugate (n : nat) (M : matrix) : matrix :=
  map (fun i => map (fun j => mul (sign (i + j)) (det (pred n) (minor j i M)))
                    (seq 0 n))
      (seq 0 n).

Definition inverse (n : nat) (M : matrix) : matrix :=
  scale (div one (det n M)) (adjugate n M).

Definition maximum (a b : T) : T := if n_ltb A a b then b else a.

Definition norm_inf (M : matrix) : T :=
  fold_right maximum zero (map (fun row => sum (map (n_abs A) row)) M).

Definition condition_number (n : nat) (M : matrix) : T :=
  mul (norm_inf M) (norm_inf (inverse n M)).

(** Exactly singular, or conditioned worse than the threshold. *)
Definition singular (cfg : Config) (k : nat) (S : matrix) : bool :=
  if n_eqb A (det k S) zero then true
  else n_ltb A (conditionNumberThreshold cfg) (condition_number k S).

(** The average of a matrix and its transpose. *)
Definition symmetrize (M : matrix) : matrix :=
  scale (div one (add one one)) (addmm M (transpose M)).

Definition entry (M : matrix) (i j : nat) : T := nth j (nth i M []) zero.

Definition symmetric (n : nat) (M : matrix) : bool :=
  forallb (fun i => forallb (fun j => n_eqb A (entry M i j) (entry M j i))
                            (seq 0 n))
          (seq 0 n).

Fixpoint subsets (l : list nat) : list (list nat) :=
  match l with
  | [] => [[]]
  | i :: t => map (cons i) (subsets t) ++ subsets t
  end.

(** The rows and columns of [M] at the indices [idx]. *)
Definition principal (idx : list nat) (M : matrix) : matrix :=
  map (fun i => map (fun j => entry M i j) idx) idx.

(** A valid noise covariance: symmetric, no negative principal minor. *)
Definition positive_semidefinite (n : nat) (M : matrix) : bool :=
  symmetric n M
  && forallb (fun idx => n_leb A zero (det (length idx) (principal idx M)))
             (subsets (seq 0 n)).

(** Modelled from the spec: [predict(F, Q, B=None, u=None)] of section 4.2,
    with its dimension checks against the state dimension [n] and the
    rejection of a process noise that is not a covariance. *)
Definition predict (st : KalmanState) (F Q : matrix)
           (control : option (matrix * vector)) : result KalmanState :=
  let n := length (x st) in
  let control_ok :=
    match control with
    | None => true
    | Some (B, u) => has_shape n (length u) B
    end in
  if has_shape n n F && has_shape n n Q && control_ok then
    if positive_semidefinite n Q then
      let Fx := mulmv F (x st) in
      let x' :=
        match control with
        | None => Fx
        | Some (B, u) => vadd Fx (mulmv B u)
        end in
      let P' := addmm (mulmm (mulmm F (P st)) (transpose F)) Q in
      Ok {| x := x'; P := P' |}
    else Raise InvalidInputError
  else Raise DimensionMismatchError.

(** Modelled from the spec: [update(z, H, R)] of section 4.2, with its
    dimension checks, the rejection of a measurement noise that is not a
    covariance, the rejection of a singular or ill-conditioned innovation
    covariance [S], and the optional symmetrisation of [P]. *)
Definition update (cfg : Config) (st : KalmanState) (z : vector)
           (H R : matrix) : result KalmanState :=
  let n := length (x st) in
  let k := length z in
  if has_shape k n H && has_shape k k R then
    if positive_semidefinite k R then
      let y := vsub z (mulmv H (x st)) in
      let Ht := transpose H in
      let S := addmm (mulmm (mulmm H (P st)) Ht) R in
      if singular cfg k S then Raise SingularInnovationCovarianceError
      else
        let K := mulmm (mulmm (P st) Ht) (inverse k S) in
        let x' := vadd (x st) (mulmv K y) in
        let P' := mulmm (submm (identity n) (mulmm K H)) (P st) in
        Ok {| x := x';
              P := if symmetrizeAfterUpdate cfg then symmetrize P' else P' |}
    else Raise InvalidInputError
  else Raise DimensionMismatchError.

Inductive call : Type :=
| Predict (F Q : matrix) (control : option (matrix * vector))
| Update (z : vector) (H R : matrix).

Definition apply_call (cfg : Config) (st : KalmanState) (c : call)
  : result KalmanState :=
  match c with
  | Predict F Q control => predict st F Q control
  | Update z H R => update cfg st z H R
  end.

Definition trace (cfg : Config)
  : KalmanState -> list call -> list KalmanState :=
  run (apply_call cfg).

End Over.

End LinearKalmanFilter.

Module LKF := LinearKalmanFilter.

(** Scalars reinterpreted as 1 by 1 matrices, with F = B = H = 1. *)
Definition vec1 (a : Qc) : LKF.vector Rational := a :: nil.
Definition mat1 (a : Qc) : LKF.matrix Rational := (a :: nil) :: nil.

Definition as_state (b : belief) : LKF.KalmanState Rational :=
  LKF.Build_KalmanState Rational (vec1 (mean b)) (mat1 (variance b)).

Definition as_matrix_call (c : call) : LKF.call Rational :=
  match c with
  | Predict u Q =>
      LKF.Predict Rational (mat1 1) (mat1 Q) (Some (mat1 1, vec1 u))
  | Update z R =>
      LKF.Update Rational (vec1 z) (mat1 1) (mat1 R)
  end.

(** A configuration in the spirit of the defaults: a small positive noise
    floor, a large threshold on the condition number, symmetrisation on. *)
Definition rational_config : LKF.Config Rational :=
  LKF.Build_Config Rational (q 1 1000000000000) (q 1000000000000 1) true.

Definition float_config : LKF.Config Binary64 :=
  LKF.Build_Config Binary64 0x1p-40%float 0x1p40%float true.

(** ** The interactive cell: [kalman_filtering] *)

(** The cell builds the measurements, runs the filter over them and plots.

      def kalman_filtering(N,R,u,Q):
          x0 = 0
          P = 100
          np.random.seed(123)
          z_all = np.arange(N) + R* np.random.randn(N)
          x_pred = []
          x_est = []
          for i, z in enumerate(z_all):
              if i == 0:
                  x_pred.append(add_gaussians(x0,P,u,Q))
                  x_est.append(multiply_gaussians(z, R, x_pred[i][0], P))
              else:
                  x_pred.append(add_gaussians(x_est[i-1][0],
                                              x_est[i-1][1],
                                              u,Q))
                  x_est.append(multiply_gaussians(z,R,
                                                  x_pred[i][0],
                                                  x_pred[i][1]))

    The [N] samples of [np.random.randn] are an input of the model; the
    plotting calls are left out. *)

(** How the loop ends: with the two lists, with the exception a call
    raised, or with the [IndexError] of a list index out of range. *)
Inductive outcome : Type :=
| Completed (x_pred x_est : list belief)
| Raised (e : exn)
| IndexError.

(** The locals [x0 = 0] and [P = 100]. *)
Definition x0 : Qc := 0.
Definition P0 : Qc := q 100 1.

Definition Qc_of_nat (n : nat) : Qc := Q2Qc (inject_Z (Z.of_nat n)).

(** [np.arange(N) + R * noise], elementwise. *)
Definition measurements (N : nat) (R : Qc) (noise : list Qc) : list Qc :=
  map (fun p => Qc_of_nat (fst p) + R * snd p) (combine (seq 0 N) noise).

(** The [for] loop, from index [i] on, with the lists built so far. *)
Fixpoint kf_loop (R u Q : Qc) (z_all : list Qc) (i : nat)
         (x_pred x_est : list belief) : outcome :=
  match z_all with
  | [] => Completed x_pred x_est
  | z :: rest =>
      if Nat.eqb i 0 then
        let x_pred := x_pred ++ [add_gaussians x0 P0 u Q] in
        match nth_error x_pred i with
        | None => IndexError
        | Some p =>
            match multiply_gaussians z R (mean p) P0 with
            | Raise e => Raised e
            | Ok est => kf_loop R u Q rest (S i) x_pred (x_est ++ [est])
            end
        end
      else
        match nth_error x_est (i - 1) with
        | None => IndexError
        | Some prev =>
            let x_pred :=
              x_pred ++ [add_gaussians (mean prev) (variance prev) u Q] in
            match nth_error x_pred i with
            | None => IndexError
            | Some p =>
                match multiply_gaussians z R (mean p) (variance p) with
                | Raise e => Raised e
                | Ok est => kf_loop R u Q rest (S i) x_pred (x_est ++ [est])
                end
            end
        end
  end.

(** The loop over given measurements, and the cell on given noise samples. *)
Definition kalman_filtering_on (R u Q : Qc) (z_all : list Qc) : outcome :=
  kf_loop R u Q z_all 0 [] [].

Definition kalman_filtering (N : nat) (R u Q : Qc) (noise : list Qc)
  : outcome :=
  kalman_filtering_on R u Q (measurements N R noise).

(** The plotted error bars, [x_est_var = [est[1] for est in x_est]], and the
    predicted variances; [None] when the loop did not complete. *)
Definition variances (o : outcome) : option (list Qc * list Qc) :=
  match o with
  | Completed x_pred x_est => Some (map variance x_pred, map variance x_est)
  | _ => None
  end.

(** The steps after the first as a recursion on the previous estimate: the
    predictions and the estimates they append. *)
Fixpoint kf_steps (R u Q : Qc) (z_all : list Qc) (prev : belief)
  : result (list belief * list belief) :=
  match z_all with
  | [] => Ok ([], [])
  | z :: rest =>
      let p := add_gaussians (mean prev) (variance prev) u Q in
      let* est := multiply_gaussians z R (mean p) (variance p) in
      let* r := kf_steps R u Q rest est in
      Ok (p :: fst r, est :: snd r)
  end.

(** * Properties *)

(** ** Arithmetic helpers *)

Ltac qc_eval :=
  vm_compute;
  repeat match goal with
         | |- Ok _ = Ok _ => f_equal
         | |- (_, _) = (_, _) => apply injective_projections; cbn [fst snd]
         | |- _ :: _ = _ :: _ => f_equal
         | |- @eq Qc _ _ => apply Qc_is_canon; reflexivity
         end.

Lemma Qc_sum_nonneg (P R : Qc) : 0 <= P -> 0 <= R -> 0 <= P + R.
Proof.
  intros HP HR. replace 0 with (0 + 0) by ring. now apply Qcplus_le_compat.
Qed.

Lemma Qc_sum_pos (P R : Qc) : 0 <= P -> 0 <= R -> P + R <> 0 -> 0 < P + R.
Proof.
  intros HP HR Hne.
  destruct (Qcle_lt_or_eq 0 (P + R)) as [H|H]; auto using Qc_sum_nonneg.
  congruence.
Qed.

Lemma Qc_sum_zero (P R : Qc) : 0 <= P -> 0 <= R -> P + R = 0 -> P = 0 /\ R = 0.
Proof.
  intros HP HR H0.
  assert (HR' : R = - P) by (rewrite <- (Qcplus_0_l (- P)), <- H0; ring).
  assert (HP0 : P = 0).
  { apply Qcle_antisym; auto. rewrite <- (Qcopp_involutive P), <- HR'.
    change 0 with (- 0). now apply Qcopp_le_compat. }
  split; auto. rewrite HR', HP0. ring.
Qed.

Lemma Qc_gain_bounds (P R : Qc) :
  0 <= P -> 0 <= R -> P + R <> 0 -> 0 <= P / (P + R) <= 1.
Proof.
  intros HP HR Hne.
  pose proof (Qc_sum_pos P R HP HR Hne) as Hpos.
  unfold Qcle, Qclt, Qcdiv, Qcmult, Qcinv, Qcplus in *. cbn [this Q2Qc] in *.
  rewrite ?Qred_correct in *.
  split.
  - apply Qle_shift_div_l; auto. lra.
  - apply Qle_shift_div_r; auto. lra.
Qed.

Lemma Qc_product_over_sum_nonneg (P R : Qc) :
  0 <= P -> 0 <= R -> P + R <> 0 -> 0 <= (P * R) / (P + R).
Proof.
  intros HP HR Hne.
  replace ((P * R) / (P + R)) with (R * (P / (P + R))) by (field; auto).
  destruct (Qc_gain_bounds P R HP HR Hne) as [Hk _].
  rewrite <- (Qcmult_0_l (P / (P + R))).
  now apply Qcmult_le_compat_r.
Qed.

(** ** Division *)

Lemma pdiv_ok (a b : Qc) : b <> 0 -> pdiv a b = Ok (a / b).
Proof. intros Hb. unfold pdiv. destruct (Qc_eq_dec b 0); congruence. Qed.

Lemma pdiv_zero (a b : Qc) : b = 0 -> pdiv a b = Raise ZeroDivisionError.
Proof. intros Hb. unfold pdiv. destruct (Qc_eq_dec b 0); congruence. Qed.

Lemma multiply_gaussians_ok (z R x P : Qc) :
  P + R <> 0 ->
  multiply_gaussians z R x P
  = Ok (x + P / (P + R) * (z - x), (P * R) / (P + R)).
Proof.
  intros Hne. unfold multiply_gaussians, kalman_gain.
  now rewrite !pdiv_ok by assumption.
Qed.

Lemma multiply_gaussians_zero (z R x P : Qc) :
  P + R = 0 -> multiply_gaussians z R x P = Raise ZeroDivisionError.
Proof.
  intros H0. unfold multiply_gaussians, kalman_gain.
  now rewrite pdiv_zero by assumption.
Qed.

Example add_gaussians_ex :
  add_gaussians (q 0 1) (q 100 1) (q 1 1) (q 3 1) = (q 1 1, q 103 1).
Proof. qc_eval. Qed.

Example multiply_gaussians_ex :
  multiply_gaussians (q 5 1) (q 1 1) (q 0 1) (q 100 1)
  = Ok (q 500 101, q 100 101).
Proof. qc_eval. Qed.

(** ** Predict: [add_gaussians] *)

(** C2. For every belief (mean, variance) and every control input (u, Q),
    predict returns the belief whose mean is [mean + u] and whose variance is
    [variance + Q]. *)
Theorem predict_adds (b : belief) (u Q : Qc) :
  exists b',
    scalar_predict b u Q = Ok b' /\
    add_gaussians (mean b) (variance b) u Q = b' /\
    mean b' = mean b + u /\
    variance b' = variance b + Q.
Proof.
  exists (mean b + u, variance b + Q). repeat split.
Qed.

(** C10, as stated, on floats: float addition is not associative.  From
    the mean 0.3 (the float 0x1.3333333333333p-2), predicting with u = 1 and
    then with u = -1 returns the mean 0.30000000000000004, while one predict
    with u = 1 + -1 returns 0.3; from the mean 1, predicting with 1e16 and
    then with -1e16 returns 0, while one predict with their sum returns 1. *)
Lemma float_predicts_do_not_compose :
  (let b1 := Float64.add_gaussians 0x1.3333333333333p-2 0 1 0 in
   Float64.add_gaussians (fst b1) (snd b1) (-1) 0)%float
  = (0x1.3333333333334p-2, 0)%float /\
  (Float64.add_gaussians 0x1.3333333333333p-2 0 (1 + -1) (0 + 0))%float
  = (0x1.3333333333333p-2, 0)%float /\
  (let b1 := Float64.add_gaussians 1 0 1e16 0 in
   Float64.add_gaussians (fst b1) (snd b1) (-1e16) 0)%float
  = (0, 0)%float /\
  (Float64.add_gaussians 1 0 (1e16 + -1e16) (0 + 0))%float = (1, 0)%float.
Proof. repeat split. Qed.

(** C10, amended. In exact arithmetic, two consecutive predicts compose into
    one with the summed control input and the summed noise, and predicting
    with (0, 0) changes nothing. *)
Theorem add_gaussians_compose (x P u1 Q1 u2 Q2 : Qc) :
  (let b1 := add_gaussians x P u1 Q1 in
   add_gaussians (mean b1) (variance b1) u2 Q2
   = add_gaussians x P (u1 + u2) (Q1 + Q2))
  /\ add_gaussians x P 0 0 = (x, P).
Proof.
  unfold add_gaussians. cbn [mean variance fst snd]. split.
  - f_equal; ring.
  - f_equal; ring.
Qed.

(** ** Update: [multiply_gaussians] *)

(** C1, as stated, at a belief of variance 0 and a measurement of noise 0:
    the update returns no belief at all. *)
Lemma update_raises_at_zero :
  variance (q 3 1, 0) + 0 = 0 /\
  ~ exists b', scalar_update (q 3 1, 0) (q 5 1) 0 = Ok b'.
Proof.
  split; [qc_eval|]. intros [b' H]. discriminate H.
Qed.

(** C1, amended. For every belief (mean, variance) and measurement (z, R)
    with [variance + R <> 0], the update returns the belief computed with
    kalman_gain = variance / (variance + R) and residual = z - mean:
    mean + kalman_gain * residual, and variance * R / (variance + R). *)
Theorem update_formulas (b : belief) (z R : Qc) :
  variance b + R <> 0 ->
  let kalman_gain := variance b / (variance b + R) in
  let residual := z - mean b in
  scalar_update b z R
  = Ok (mean b + kalman_gain * residual,
        variance b * R / (variance b + R)).
Proof.
  intros Hne. cbv zeta. unfold scalar_update.
  now apply multiply_gaussians_ok.
Qed.

Lemma update_formulas_witness :
  variance (q 0 1, q 100 1) + q 1 1 <> 0 /\
  scalar_update (q 0 1, q 100 1) (q 5 1) (q 1 1)
  = Ok (q 0 1 + q 100 1 / (q 100 1 + q 1 1) * (q 5 1 - q 0 1),
        q 100 1 * q 1 1 / (q 100 1 + q 1 1)).
Proof.
  split.
  - discriminate.
  - apply (update_formulas (q 0 1, q 100 1) (q 5 1) (q 1 1)). discriminate.
Defined.




(** C9. The update is symmetric in its two Gaussians: when [P + R <> 0],
    swapping (z, R) with (x, P) returns the same (mean, variance) pair. *)
Theorem multiply_gaussians_sym (z R x P : Qc) :
  P + R <> 0 ->
  multiply_gaussians z R x P = multiply_gaussians x P z R
  /\ exists b, multiply_gaussians z R x P = Ok b.
Proof.
  intros Hne.
  assert (Hne' : R + P <> 0) by (rewrite Qcplus_comm; exact Hne).
  rewrite (multiply_gaussians_ok z R x P Hne).
  rewrite (multiply_gaussians_ok x P z R Hne').
  split; [|eauto].
  f_equal. f_equal; field; assumption.
Qed.

Lemma multiply_gaussians_sym_witness :
  q 100 1 + q 1 1 <> 0 /\
  multiply_gaussians (q 5 1) (q 1 1) (q 0 1) (q 100 1)
  = multiply_gaussians (q 0 1) (q 100 1) (q 5 1) (q 1 1).
Proof.
  split.
  - discriminate.
  - apply (multiply_gaussians_sym (q 5 1) (q 1 1) (q 0 1) (q 100 1)).
    discriminate.
Defined.

(** C7, as stated, at variance 0 and noise 0: the division by zero happens
    and surfaces as Python's exception; no floor replaces the denominator. *)
Lemma no_noise_floor :
  variance (q 0 1, q 0 1) + q 0 1 = 0 /\
  scalar_update (q 0 1, q 0 1) (q 7 1) (q 0 1) = Raise ZeroDivisionError /\
  forall eps, 0 < eps ->
    scalar_update (q 0 1, q 0 1) (q 7 1) (q 0 1)
    <> Ok (q 0 1 + q 0 1 / eps * (q 7 1 - q 0 1), q 0 1 * q 0 1 / eps).
Proof.
  split; [qc_eval|]. split; [reflexivity|]. intros eps _ H. discriminate H.
Qed.

(** C7, amended. The update has no noise floor: it raises
    [ZeroDivisionError] exactly when [variance + R = 0], and in every other
    case returns a belief. *)
Theorem update_raises_iff (b : belief) (z R : Qc) :
  (variance b + R = 0 <-> scalar_update b z R = Raise ZeroDivisionError)
  /\ (variance b + R <> 0 <-> exists b', scalar_update b z R = Ok b').
Proof.
  unfold scalar_update.
  destruct (Qc_eq_dec (variance b + R) 0) as [H0|Hne].
  - rewrite (multiply_gaussians_zero _ _ _ _ H0). split; split; intros H; auto.
    + contradiction.
    + destruct H as [b' H]. discriminate H.
  - rewrite (multiply_gaussians_ok _ _ _ _ Hne). split; split; intros H; eauto.
    + contradiction.
    + discriminate H.
Qed.

(** ** Input validation *)

(** C6, as stated, at Q = -1 and at R = -1: both calls return a belief. *)
Lemma negative_noise_accepted :
  q (-1) 1 < 0 /\
  scalar_predict (q 0 1, q 1 1) (q 0 1) (q (-1) 1) = Ok (q 0 1, q 0 1) /\
  scalar_update (q 0 1, q 2 1) (q 3 1) (q (-1) 1) = Ok (q 6 1, q (-2) 1).
Proof.
  split; [reflexivity|]. split; qc_eval.
Qed.

(** C6, amended. Neither operation checks the sign of its noise argument:
    with Q < 0 predict still returns (mean + u, variance + Q); with R < 0
    update still returns its usual belief when [variance + R <> 0], and
    raises [ZeroDivisionError], returning no belief, when
    [variance + R = 0]. *)
Theorem negative_noise_not_rejected (b : belief) (u Q z R : Qc) :
  Q < 0 -> R < 0 ->
  scalar_predict b u Q = Ok (mean b + u, variance b + Q) /\
  scalar_update b z R
  = (if Qc_eq_dec (variance b + R) 0
     then Raise ZeroDivisionError
     else Ok (mean b + variance b / (variance b + R) * (z - mean b),
              variance b * R / (variance b + R))) /\
  scalar_predict b u Q <> Raise InvalidInputError /\
  scalar_update b z R <> Raise InvalidInputError.
Proof.
  intros _ _.
  assert (Hu : scalar_update b z R
               = if Qc_eq_dec (variance b + R) 0
                 then Raise ZeroDivisionError
                 else Ok (mean b + variance b / (variance b + R)
                                   * (z - mean b),
                          variance b * R / (variance b + R))).
  { unfold scalar_update.
    destruct (Qc_eq_dec (variance b + R) 0) as [H0|Hne].
    - now apply multiply_gaussians_zero.
    - now apply multiply_gaussians_ok. }
  split; [reflexivity|]. split; [exact Hu|]. split; [discriminate|].
  rewrite Hu. destruct (Qc_eq_dec (variance b + R) 0); discriminate.
Qed.

Lemma negative_noise_not_rejected_witness :
  q (-1) 1 < 0 /\
  scalar_predict (q 0 1, q 2 1) (q 0 1) (q (-1) 1)
  = Ok (q 0 1 + q 0 1, q 2 1 + q (-1) 1) /\
  exists b', scalar_update (q 0 1, q 2 1) (q 3 1) (q (-1) 1) = Ok b'.
Proof.
  assert (Hn : q (-1) 1 < 0) by reflexivity.
  destruct (negative_noise_not_rejected
              (q 0 1, q 2 1) (q 0 1) (q (-1) 1) (q 3 1) (q (-1) 1) Hn Hn)
    as [Hp [Hu _]].
  split; [exact Hn|]. split; [exact Hp|].
  rewrite Hu. destruct (Qc_eq_dec _ _) as [H0|Hne]; [discriminate H0|eauto].
Defined.

(** ** Sequences of calls *)





(** The run is not cut short when no update has both variance and noise at
    zero; strictly positive measurement noise is enough. *)
Lemma trace_complete (b : belief) (cs : list call) :
  0 <= variance b ->
  Forall (fun c => match c with
                   | Predict _ Q => 0 <= Q
                   | Update _ R => 0 < R
                   end) cs ->
  length (trace b cs) = length cs.
Proof.
  intros Hb Hcs. revert b Hb.
  induction Hcs as [|c cs Hc _ IH]; intros b Hb; unfold trace; cbn [run length];
    fold trace; auto.
  destruct c as [u Q|z R]; cbn [apply_call].
  - cbn. f_equal. apply IH. cbn. now apply Qc_sum_nonneg.
  - unfold scalar_update.
    assert (Hne : variance b + R <> 0).
    { intros H0. apply Qclt_le_weak in Hc as Hc'.
      destruct (Qc_sum_zero _ _ Hb Hc' H0) as [_ HR]. subst R.
      discriminate Hc. }
    rewrite multiply_gaussians_ok by assumption. cbn [length]. f_equal.
    apply IH. cbn. apply Qc_product_over_sum_nonneg; auto.
    now apply Qclt_le_weak.
Qed.

Lemma nonincreasingb_sound (l : list Qc) :
  nonincreasingb l = true -> nonincreasing l.
Proof.
  induction l as [|a t IH]; cbn; auto.
  destruct t as [|b t']; auto.
  intros H. apply andb_true_iff in H as [Hab Ht]. split.
  - now apply Qle_bool_imp_le.
  - now apply IH.
Qed.

(** C8. From (mean 0, variance 100), fifty rounds of predict(0, 0) then
    update(5, 1) all succeed, end with the mean within 0.01 of 5, and never
    increase the variance from one call to the next. *)
Theorem convergence_scenario :
  let b0 := (q 0 1, q 100 1) in
  let bs := trace b0 (time_steps 50 (q 0 1) (q 0 1) (q 5 1) (q 1 1)) in
  length bs = 100%nat /\
  last bs b0 = (q 25000 5001, q 100 5001) /\
  Qcabs (mean (last bs b0) - q 5 1) <= q 1 100 /\
  nonincreasing (variance b0 :: map variance bs).
Proof.
  cbv zeta. split; [vm_compute; reflexivity|].
  split; [qc_eval|]. split.
  - apply Qle_bool_imp_le. vm_compute. reflexivity.
  - apply nonincreasingb_sound. vm_compute. reflexivity.
Qed.

(** ** The matrix filter in dimension one *)

Example inverse_2x2 :
  LKF.inverse Rational 2
    ((q 2 1 :: q 1 1 :: nil) :: (q 1 1 :: q 1 1 :: nil) :: nil)
  = (q 1 1 :: q (-1) 1 :: nil) :: (q (-1) 1 :: q 2 1 :: nil) :: nil.
Proof. qc_eval. Qed.

Ltac one_by_one :=
  cbv [mat1 vec1 LKF.mulmv LKF.mulmm LKF.addmm LKF.submm LKF.vadd LKF.vsub
       LKF.transpose LKF.col LKF.ncols LKF.identity LKF.zip_with LKF.dot
       LKF.sum LKF.scale LKF.inverse LKF.adjugate LKF.det LKF.minor
       LKF.remove_nth LKF.sign LKF.symmetrize LKF.norm_inf
       LKF.entry LKF.principal LKF.symmetric LKF.subsets
       Rational num n_zero n_one n_add n_sub n_mul n_div n_abs n_eqb n_ltb
       n_leb
       Nat.even Nat.add Nat.pred Nat.eqb
       map combine fold_right seq nth length fst snd app forallb];
  repeat match goal with
         | |- (_ :: _) = (_ :: _) => f_equal
         end.

Lemma mulmv_1 (a b : Qc) :
  LKF.mulmv Rational (mat1 a) (vec1 b) = vec1 (a * b).
Proof. one_by_one. ring. Qed.

Lemma mulmm_1 (a b : Qc) :
  LKF.mulmm Rational (mat1 a) (mat1 b) = mat1 (a * b).
Proof. one_by_one. ring. Qed.

Lemma transpose_1 (a : Qc) : LKF.transpose Rational (mat1 a) = mat1 a.
Proof. reflexivity. Qed.

Lemma addmm_1 (a b : Qc) :
  LKF.addmm Rational (mat1 a) (mat1 b) = mat1 (a + b).
Proof. reflexivity. Qed.

Lemma submm_1 (a b : Qc) :
  LKF.submm Rational (mat1 a) (mat1 b) = mat1 (a - b).
Proof. reflexivity. Qed.

Lemma vadd_1 (a b : Qc) : LKF.vadd Rational (vec1 a) (vec1 b) = vec1 (a + b).
Proof. reflexivity. Qed.

Lemma vsub_1 (a b : Qc) : LKF.vsub Rational (vec1 a) (vec1 b) = vec1 (a - b).
Proof. reflexivity. Qed.

Lemma identity_1 : LKF.identity Rational 1 = mat1 1.
Proof. reflexivity. Qed.

Lemma det_1 (a : Qc) : LKF.det Rational 1 (mat1 a) = a.
Proof. one_by_one. ring. Qed.

Lemma inverse_1 (a : Qc) : LKF.inverse Rational 1 (mat1 a) = mat1 (/ a).
Proof.
  unfold LKF.inverse. rewrite det_1. one_by_one. unfold Qcdiv. ring.
Qed.

Lemma symmetrize_1 (a : Qc) : LKF.symmetrize Rational (mat1 a) = mat1 a.
Proof.
  one_by_one. field. discriminate.
Qed.

Lemma norm_inf_1 (a : Qc) : LKF.norm_inf Rational (mat1 a) = Qcabs a.
Proof.
  one_by_one. rewrite Qcplus_0_r.
  cbv [LKF.maximum Rational n_ltb].
  destruct (Qclt_le_dec (Qcabs a) 0) as [Hlt|Hle]; auto.
  exfalso. exact (Qclt_not_le _ _ Hlt (Qcabs_nonneg a)).
Qed.

Lemma condition_number_1 (a : Qc) :
  a <> 0 -> LKF.condition_number Rational 1 (mat1 a) = 1.
Proof.
  intros Ha. unfold LKF.condition_number.
  rewrite inverse_1, !norm_inf_1. cbv [Rational n_mul].
  rewrite <- Qcabs_Qcmult, Qcmult_inv_r by assumption.
  apply Qcabs_pos. discriminate.
Qed.

Lemma Qc_eq_bool_refl (a : Qc) : Qc_eq_bool a a = true.
Proof. unfold Qc_eq_bool. destruct (Qc_eq_dec a a); congruence. Qed.

(** In dimension one a noise covariance is valid when it is not negative. *)
Lemma positive_semidefinite_1 (a : Qc) :
  LKF.positive_semidefinite Rational 1 (mat1 a)
  = if Qclt_le_dec a 0 then false else true.
Proof.
  unfold LKF.positive_semidefinite.
  change (LKF.symmetric Rational 1 (mat1 a))
    with (Qc_eq_bool a a && true && true).
  rewrite Qc_eq_bool_refl. cbn [andb].
  change (LKF.subsets (seq 0 1)) with ((O :: nil) :: nil :: nil).
  cbn [forallb length].
  change (LKF.principal Rational (O :: nil) (mat1 a)) with (mat1 a).
  rewrite det_1.
  cbv [Rational n_leb n_zero LKF.principal LKF.det map].
  destruct (Qclt_le_dec a 0); [reflexivity|].
  destruct (Qclt_le_dec 1 0) as [H|H]; [discriminate H|reflexivity].
Qed.

Lemma positive_semidefinite_valid (a : Qc) :
  0 <= a -> LKF.positive_semidefinite Rational 1 (mat1 a) = true.
Proof.
  intros Ha. rewrite positive_semidefinite_1.
  destruct (Qclt_le_dec a 0) as [Hlt|Hle]; auto.
  exfalso. exact (Qclt_not_le _ _ Hlt Ha).
Qed.

Lemma predict_1 (b : belief) (u Q : Qc) :
  0 <= Q ->
  LKF.predict Rational (as_state b) (mat1 1) (mat1 Q)
              (Some (mat1 1, vec1 u))
  = Ok (as_state (add_gaussians (mean b) (variance b) u Q)).
Proof.
  intros HQ. unfold LKF.predict, as_state. cbn [LKF.x LKF.P].
  change (length (vec1 (mean b))) with 1%nat.
  change (length (vec1 u)) with 1%nat.
  change (LKF.has_shape Rational 1 1 (mat1 1)) with true.
  change (LKF.has_shape Rational 1 1 (mat1 Q)) with true.
  rewrite positive_semidefinite_valid by assumption.
  cbn [andb]. cbv zeta.
  rewrite !mulmv_1, !mulmm_1, transpose_1, mulmm_1, addmm_1, vadd_1.
  unfold add_gaussians. cbn [mean variance fst snd].
  f_equal. f_equal; f_equal; ring.
Qed.

Section DimensionOne.

(** The threshold on the condition number is not below 1, the condition
    number of every invertible 1 by 1 matrix. *)
Variable cfg : LKF.Config Rational.
Hypothesis threshold_ok : 1 <= LKF.conditionNumberThreshold Rational cfg.

Lemma singular_1 (a : Qc) :
  LKF.singular Rational cfg 1 (mat1 a)
  = if Qc_eq_dec a 0 then true else false.
Proof.
  unfold LKF.singular. rewrite det_1.
  cbn [Rational n_eqb n_zero n_ltb]. unfold Qc_eq_bool.
  destruct (Qc_eq_dec a 0) as [H0|Hne]; auto.
  rewrite condition_number_1 by assumption.
  destruct (Qclt_le_dec (LKF.conditionNumberThreshold Rational cfg) 1)
    as [Hlt|Hle]; auto.
  exfalso. exact (Qclt_not_le _ _ Hlt threshold_ok).
Qed.

Lemma update_1 (b : belief) (z R : Qc) :
  0 <= R ->
  LKF.update Rational cfg (as_state b) (vec1 z) (mat1 1) (mat1 R)
  = match scalar_update b z R with
    | Ok b' => Ok (as_state b')
    | Raise _ => Raise SingularInnovationCovarianceError
    end.
Proof.
  intros HR. unfold LKF.update, as_state. cbn [LKF.x LKF.P].
  change (length (vec1 (mean b))) with 1%nat.
  change (length (vec1 z)) with 1%nat.
  change (LKF.has_shape Rational 1 1 (mat1 1)) with true.
  change (LKF.has_shape Rational 1 1 (mat1 R)) with true.
  rewrite positive_semidefinite_valid by assumption.
  cbn [andb]. cbv zeta.
  rewrite transpose_1, !mulmm_1, addmm_1, singular_1.
  replace (1 * variance b * 1 + R) with (variance b + R) by ring.
  unfold scalar_update.
  destruct (Qc_eq_dec (variance b + R) 0) as [H0|Hne].
  - now rewrite multiply_gaussians_zero.
  - rewrite multiply_gaussians_ok by assumption.
    rewrite inverse_1, identity_1, !mulmm_1, !mulmv_1, submm_1, mulmm_1.
    rewrite vsub_1, mulmv_1, vadd_1.
    assert (HP : mat1 ((1 - variance b * 1 * / (variance b + R) * 1)
                       * variance b)
                 = mat1 (variance b * R / (variance b + R)))
      by (f_equal; field; assumption).
    rewrite HP, symmetrize_1.
    cbn [mean variance fst snd]. f_equal. f_equal.
    + f_equal. field. assumption.
    + now destruct (LKF.symmetrizeAfterUpdate Rational cfg).
Qed.

Lemma apply_call_1 (b : belief) (c : call) :
  valid_call c ->
  LKF.apply_call Rational cfg (as_state b) (as_matrix_call c)
  = match apply_call b c with
    | Ok b' => Ok (as_state b')
    | Raise _ => Raise SingularInnovationCovarianceError
    end.
Proof.
  intros Hc.
  destruct c as [u Q|z R]; cbn [as_matrix_call LKF.apply_call valid_call] in *.
  - now apply predict_1.
  - now apply update_1.
Qed.

(** C3, amended.  Modelled from the spec: the matrix filter.  In exact
    arithmetic, for every sequence of scalar calls with every Q >= 0 and
    every R >= 0, the matrix filter in dimension n = k = m = 1, fed the same
    scalars as 1 by 1 matrices with F = B = H = 1 and configured with a
    threshold on the condition number that is not below 1, returns the same
    sequence of means and variances as the scalar functions; the two runs
    stop at the same call. *)
Theorem scalar_matrix_equivalence (b : belief) (cs : list call) :
  Forall valid_call cs ->
  LKF.trace Rational cfg (as_state b) (map as_matrix_call cs)
  = map as_state (trace b cs).
Proof.
  intros Hcs. revert b. unfold LKF.trace, trace.
  induction Hcs as [|c cs Hc _ IH]; intros b; cbn [map run]; auto.
  rewrite apply_call_1 by assumption.
  destruct (apply_call b c) as [b'|e]; cbn [map]; auto.
  now rewrite IH.
Qed.

End DimensionOne.

Lemma scalar_matrix_equivalence_witness :
  let b := (q 0 1, q 100 1) in
  let cs := time_steps 2 (q 1 1) (q 2 1) (q 5 1) (q 1 1) in
  1 <= LKF.conditionNumberThreshold Rational rational_config /\
  Forall valid_call cs /\
  LKF.trace Rational rational_config (as_state b) (map as_matrix_call cs)
  = map as_state (trace b cs).
Proof.
  cbv zeta.
  assert (Hthr : 1 <= LKF.conditionNumberThreshold Rational rational_config)
    by discriminate.
  assert (Hcs : Forall valid_call
                  (time_steps 2 (q 1 1) (q 2 1) (q 5 1) (q 1 1)))
    by (repeat constructor; discriminate).
  split; [exact Hthr|]. split; [exact Hcs|].
  exact (scalar_matrix_equivalence rational_config Hthr _ _ Hcs).
Defined.

(** C3, as stated.  Modelled from the spec: the matrix filter.
    (1) At Q = -1 the scalar predict returns the belief (0, 0), while the
    matrix filter rejects the noise with [InvalidInputError] and returns no
    state.  (2) On floats, from the belief (0, 1e8) one predict with (0, 0)
    and one update with z = 1, R = 1 return the variance 0.99999999 from the
    scalar functions and 0.99999999392... from the matrix filter, which
    computes it as (1 - K H) P: they differ by more than 2^-29 > 1e-9.
    (3) With a threshold on the condition number below 1, here 1/2, the
    matrix filter rejects the update with z = 5, R = 1 that the scalar
    functions perform. *)
Lemma scalar_matrix_divergence :
  (trace (q 0 1, q 1 1) (Predict (q 0 1) (q (-1) 1) :: nil)
   = (q 0 1, q 0 1) :: nil /\
   LKF.trace Rational rational_config (as_state (q 0 1, q 1 1))
             (map as_matrix_call (Predict (q 0 1) (q (-1) 1) :: nil)) = nil)
  /\
  (exists ms vs mm vm : float,
     (let b1 := Float64.add_gaussians 0 1e8 0 0 in
      Float64.multiply_gaussians 1 1 (fst b1) (snd b1))%float
     = Ok (ms, vs) /\
     (let* st1 :=
        LKF.predict Binary64
          (LKF.Build_KalmanState Binary64
             (0%float :: nil) ((1e8%float :: nil) :: nil))
          ((1%float :: nil) :: nil) ((0%float :: nil) :: nil)
          (Some ((1%float :: nil) :: nil, 0%float :: nil)) in
      LKF.update Binary64 float_config st1
                 (1%float :: nil) ((1%float :: nil) :: nil)
                 ((1%float :: nil) :: nil))
     = Ok (LKF.Build_KalmanState Binary64 (mm :: nil) ((vm :: nil) :: nil))
     /\
     PrimFloat.ltb 0x1p-29 (PrimFloat.abs (vs - vm)) = true)
  /\
  (trace (q 0 1, q 1 1) (Update (q 5 1) (q 1 1) :: nil)
   = (q 5 2, q 1 2) :: nil /\
   LKF.trace Rational
             (LKF.Build_Config Rational (q 1 1000000000000) (q 1 2) true)
             (as_state (q 0 1, q 1 1))
             (map as_matrix_call (Update (q 5 1) (q 1 1) :: nil)) = nil).
Proof.
  split; [|split].
  - split; [qc_eval|vm_compute; reflexivity].
  - do 4 eexists. split; [vm_compute; reflexivity|].
    split; [vm_compute; reflexivity|]. vm_compute. reflexivity.
  - split; [qc_eval|vm_compute; reflexivity].
Qed.

(** The matrix filter beyond dimension one: a wrongly shaped [F], a noise
    matrix with a negative principal minor and a zero innovation covariance
    are rejected, and a position measurement corrects a two-dimensional
    state. *)
Example predict_dimension_mismatch :
  LKF.predict Rational (as_state (q 0 1, q 1 1))
              ((q 1 1 :: q 0 1 :: nil) :: (q 0 1 :: q 1 1 :: nil) :: nil)
              (mat1 0) None
  = Raise DimensionMismatchError.
Proof. reflexivity. Qed.

Example update_indefinite_noise_rejected :
  LKF.update Rational rational_config
             (LKF.Build_KalmanState Rational
                (q 0 1 :: q 0 1 :: nil)
                ((q 1 1 :: q 0 1 :: nil) :: (q 0 1 :: q 1 1 :: nil) :: nil))
             (q 1 1 :: q 1 1 :: nil)
             ((q 1 1 :: q 0 1 :: nil) :: (q 0 1 :: q 1 1 :: nil) :: nil)
             ((q 1 1 :: q 2 1 :: nil) :: (q 2 1 :: q 1 1 :: nil) :: nil)
  = Raise InvalidInputError.
Proof. reflexivity. Qed.

Example update_singular_rejected :
  LKF.update Rational rational_config
             (LKF.Build_KalmanState Rational
                (q 0 1 :: q 0 1 :: nil)
                ((q 0 1 :: q 0 1 :: nil) :: (q 0 1 :: q 0 1 :: nil) :: nil))
             (vec1 (q 7 1)) ((q 1 1 :: q 0 1 :: nil) :: nil) (mat1 0)
  = Raise SingularInnovationCovarianceError.
Proof. reflexivity. Qed.

Example update_two_dimensional :
  LKF.update Rational rational_config
             (LKF.Build_KalmanState Rational
                (q 0 1 :: q 1 1 :: nil)
                ((q 4 1 :: q 2 1 :: nil) :: (q 2 1 :: q 3 1 :: nil) :: nil))
             (vec1 (q 5 1)) ((q 1 1 :: q 0 1 :: nil) :: nil) (mat1 (q 1 1))
  = Ok (LKF.Build_KalmanState Rational
          (q 4 1 :: q 3 1 :: nil)
          ((q 4 5 :: q 2 5 :: nil) :: (q 2 5 :: q 11 5 :: nil) :: nil)).
Proof.
  vm_compute. f_equal.
  apply (f_equal2 (LKF.Build_KalmanState Rational)); qc_eval.
Qed.

(** * The interactive cell *)

Example kalman_filtering_ex :
  kalman_filtering 2 (q 1 1) (q 1 1) (q 2 1) [q 1 2; q (-1) 2]
  = Completed [(q 1 1, q 102 1); (q 152 101, q 302 101)]
              [(q 51 101, q 100 101); (q 303 403, q 302 403)].
Proof.
  vm_compute. apply f_equal2; qc_eval.
Qed.

(** ** What one update does to the belief *)

Ltac to_Q :=
  unfold Qcle, Qclt, Qcdiv, Qcminus, Qcplus, Qcmult, Qcinv, Qcopp in *;
  cbn [this Q2Qc] in *;
  rewrite ?Qred_correct in *.

Lemma Qc_pos_neq (a : Qc) : 0 < a -> a <> 0.
Proof. intros Ha H0. subst a. discriminate Ha. Qed.

Lemma Qc_add_pos (a b : Qc) : 0 < a -> 0 < b -> 0 < a + b.
Proof. intros Ha Hb. to_Q. lra. Qed.

Lemma Qc_add_pos_nonneg (a b : Qc) : 0 < a -> 0 <= b -> 0 < a + b.
Proof. intros Ha Hb. to_Q. lra. Qed.

Lemma Qc_mul_pos (a b : Qc) : 0 < a -> 0 < b -> 0 < a * b.
Proof. intros Ha Hb. to_Q. nra. Qed.

Lemma Qc_div_pos (a b : Qc) : 0 < a -> 0 < b -> 0 < a / b.
Proof. intros Ha Hb. to_Q. apply Qlt_shift_div_l; auto. lra. Qed.

Lemma Qc_posterior_le (P R : Qc) :
  0 <= P -> 0 <= R -> P + R <> 0 ->
  (P * R) / (P + R) <= P /\ (P * R) / (P + R) <= R.
Proof.
  intros HP HR Hne.
  pose proof (Qc_sum_pos P R HP HR Hne) as Hpos.
  to_Q. split; apply Qle_shift_div_r; auto; nra.
Qed.

Lemma Qc_between (k x z : Qc) :
  0 <= k -> k <= 1 -> x <= z -> x <= x + k * (z - x) /\ x + k * (z - x) <= z.
Proof. intros Hk0 Hk1 Hxz. to_Q. split; nra. Qed.

Lemma Qc_between_rev (k x z : Qc) :
  0 <= k -> k <= 1 -> z <= x -> z <= x + k * (z - x) /\ x + k * (z - x) <= x.
Proof. intros Hk0 Hk1 Hxz. to_Q. split; nra. Qed.

(** X1. With variance >= 0, R >= 0 and not both zero, the update returns a
    belief whose variance is at most the prior variance and at most the
    measurement noise, and is not negative. *)
Theorem update_shrinks_variance (z R x P : Qc) :
  0 <= P -> 0 <= R -> P + R <> 0 ->
  exists b',
    multiply_gaussians z R x P = Ok b' /\
    0 <= variance b' /\ variance b' <= P /\ variance b' <= R.
Proof.
  intros HP HR Hne. eexists. split; [now apply multiply_gaussians_ok|].
  cbn [variance snd].
  destruct (Qc_posterior_le P R HP HR Hne) as [H1 H2].
  auto using Qc_product_over_sum_nonneg.
Qed.

Lemma update_shrinks_variance_witness :
  exists b',
    multiply_gaussians (q 5 1) (q 1 1) (q 0 1) (q 100 1) = Ok b' /\
    0 <= variance b' /\ variance b' <= q 100 1 /\ variance b' <= q 1 1.
Proof.
  apply (update_shrinks_variance (q 5 1) (q 1 1) (q 0 1) (q 100 1));
    discriminate.
Defined.

(** X2. In exact arithmetic, with variance >= 0, R >= 0 and not both
    zero, the updated mean lies between the prior mean and the
    measurement. *)
Theorem update_mean_between (z R x P : Qc) :
  0 <= P -> 0 <= R -> P + R <> 0 ->
  exists b',
    multiply_gaussians z R x P = Ok b' /\
    (x <= z -> x <= mean b' /\ mean b' <= z) /\
    (z <= x -> z <= mean b' /\ mean b' <= x).
Proof.
  intros HP HR Hne. eexists. split; [now apply multiply_gaussians_ok|].
  cbn [mean fst].
  destruct (Qc_gain_bounds P R HP HR Hne) as [Hk0 Hk1].
  split; intros Hxz.
  - now apply Qc_between.
  - now apply Qc_between_rev.
Qed.

Lemma update_mean_between_witness :
  exists b',
    multiply_gaussians (q 5 1) (q 1 1) (q 0 1) (q 100 1) = Ok b' /\
    (q 0 1 <= q 5 1 -> q 0 1 <= mean b' /\ mean b' <= q 5 1) /\
    (q 5 1 <= q 0 1 -> q 5 1 <= mean b' /\ mean b' <= q 0 1).
Proof.
  apply (update_mean_between (q 5 1) (q 1 1) (q 0 1) (q 100 1));
    discriminate.
Defined.

Lemma multiply_gaussians_noiseless (z x P : Qc) :
  P <> 0 -> multiply_gaussians z 0 x P = Ok (z, 0).
Proof.
  intros Hne. rewrite multiply_gaussians_ok by (now rewrite Qcplus_0_r).
  f_equal. f_equal; field; assumption.
Qed.

(** X3. In exact arithmetic, a measurement without noise (R = 0) replaces
    the belief: when the prior variance is not zero the update returns
    (z, 0); a prior without variance (P = 0) ignores the measurement: when R
    is not zero the update returns (x, 0). *)
Theorem update_certain (z R x P : Qc) :
  (P <> 0 -> multiply_gaussians z 0 x P = Ok (z, 0)) /\
  (R <> 0 -> multiply_gaussians z R x 0 = Ok (x, 0)).
Proof.
  split; intros Hne.
  - now apply multiply_gaussians_noiseless.
  - rewrite multiply_gaussians_ok by (now rewrite Qcplus_0_l).
    f_equal. f_equal; field; assumption.
Qed.

(** X4. In exact arithmetic, precisions add: with P, R and P + R all
    non-zero, the inverse of the updated variance is 1/P + 1/R. *)
Theorem update_adds_precision (z R x P : Qc) :
  P <> 0 -> R <> 0 -> P + R <> 0 ->
  exists b',
    multiply_gaussians z R x P = Ok b' /\
    / variance b' = / P + / R.
Proof.
  intros HP HR Hne. eexists. split; [now apply multiply_gaussians_ok|].
  cbn [variance snd]. field. auto.
Qed.

Lemma update_adds_precision_witness :
  exists b',
    multiply_gaussians (q 5 1) (q 1 1) (q 0 1) (q 100 1) = Ok b' /\
    / variance b' = / q 100 1 + / q 1 1.
Proof.
  apply (update_adds_precision (q 5 1) (q 1 1) (q 0 1) (q 100 1));
    discriminate.
Defined.

(** X5. In exact arithmetic, the update agrees with the forms of the
    notebook's tables: the mean is the precision-weighted average
    (P z + R x) / (P + R) and the variance is (1 - K) P for the gain K,
    whenever P + R is not zero. *)
Theorem update_kalman_form (z R x P : Qc) :
  P + R <> 0 ->
  exists k b',
    kalman_gain P R = Ok k /\
    multiply_gaussians z R x P = Ok b' /\
    mean b' = (P * z + R * x) / (P + R) /\
    variance b' = (1 - k) * P.
Proof.
  intros Hne. exists (P / (P + R)). eexists.
  split; [now apply pdiv_ok|].
  split; [now apply multiply_gaussians_ok|].
  cbn [mean variance fst snd]. split; field; assumption.
Qed.

Lemma update_kalman_form_witness :
  exists k b',
    kalman_gain (q 100 1) (q 1 1) = Ok k /\
    multiply_gaussians (q 5 1) (q 1 1) (q 0 1) (q 100 1) = Ok b' /\
    mean b' = (q 100 1 * q 5 1 + q 1 1 * q 0 1) / (q 100 1 + q 1 1) /\
    variance b' = (1 - k) * q 100 1.
Proof.
  apply (update_kalman_form (q 5 1) (q 1 1) (q 0 1) (q 100 1)).
  discriminate.
Defined.

(** ** Two updates *)

Lemma fused_denominators (P R1 R2 : Qc) :
  0 < P -> 0 < R1 -> 0 < R2 ->
  P + R1 <> 0 /\ P + R2 <> 0 /\ R1 + R2 <> 0 /\
  P * R1 / (P + R1) + R2 <> 0 /\
  P * R2 / (P + R2) + R1 <> 0 /\
  P + R1 * R2 / (R1 + R2) <> 0.
Proof.
  intros HP H1 H2.
  pose proof (Qc_add_pos _ _ HP H1) as HP1.
  pose proof (Qc_add_pos _ _ HP H2) as HP2.
  pose proof (Qc_add_pos _ _ H1 H2) as H12.
  repeat split; apply Qc_pos_neq; auto;
    first [ apply Qc_add_pos; auto; apply Qc_div_pos; auto;
            apply Qc_mul_pos; auto ].
Qed.

(** X6. In exact arithmetic, two measurements can be fused first: for
    positive variances, updating with (z1, R1) and then with (z2, R2) returns the same belief as
    one update with the product of the two measurement Gaussians. *)
Theorem update_twice_fuses (z1 R1 z2 R2 x P : Qc) :
  0 < P -> 0 < R1 -> 0 < R2 ->
  (let* b1 := multiply_gaussians z1 R1 x P in
   multiply_gaussians z2 R2 (mean b1) (variance b1))
  = (let* m := multiply_gaussians z2 R2 z1 R1 in
     multiply_gaussians (mean m) (variance m) x P)
  /\ exists b2,
       (let* b1 := multiply_gaussians z1 R1 x P in
        multiply_gaussians z2 R2 (mean b1) (variance b1)) = Ok b2.
Proof.
  intros HP H1 H2.
  destruct (fused_denominators P R1 R2 HP H1 H2)
    as (HP1 & HP2 & H12 & Hd1 & Hd2 & Hd3).
  rewrite (multiply_gaussians_ok z1 R1 x P HP1).
  rewrite (multiply_gaussians_ok z2 R2 z1 R1 H12).
  cbn [bind mean variance fst snd].
  rewrite (multiply_gaussians_ok z2 R2 _ _ Hd1).
  rewrite (multiply_gaussians_ok _ _ x P Hd3).
  split; [|eauto].
  f_equal.
  f_equal; field; repeat split; auto;
    apply Qc_pos_neq; clear - HP H1 H2; to_Q; nra.
Qed.

Lemma update_twice_fuses_witness :
  (let* b1 := multiply_gaussians (q 1 1) (q 2 1) (q 0 1) (q 4 1) in
   multiply_gaussians (q 3 1) (q 1 1) (mean b1) (variance b1))
  = (let* m := multiply_gaussians (q 3 1) (q 1 1) (q 1 1) (q 2 1) in
     multiply_gaussians (mean m) (variance m) (q 0 1) (q 4 1)).
Proof.
  apply (update_twice_fuses (q 1 1) (q 2 1) (q 3 1) (q 1 1) (q 0 1) (q 4 1));
    reflexivity.
Defined.

(** X7. In exact arithmetic, the order of two measurements does not
    matter: for positive variances, updating with (z1, R1) then (z2, R2) returns the same belief
    as updating with (z2, R2) then (z1, R1). *)
Theorem update_twice_commutes (z1 R1 z2 R2 x P : Qc) :
  0 < P -> 0 < R1 -> 0 < R2 ->
  (let* b1 := multiply_gaussians z1 R1 x P in
   multiply_gaussians z2 R2 (mean b1) (variance b1))
  = (let* b2 := multiply_gaussians z2 R2 x P in
     multiply_gaussians z1 R1 (mean b2) (variance b2))
  /\ exists b',
       (let* b1 := multiply_gaussians z1 R1 x P in
        multiply_gaussians z2 R2 (mean b1) (variance b1)) = Ok b'.
Proof.
  intros HP H1 H2.
  destruct (fused_denominators P R1 R2 HP H1 H2)
    as (HP1 & HP2 & H12 & Hd1 & Hd2 & Hd3).
  rewrite (multiply_gaussians_ok z1 R1 x P HP1).
  rewrite (multiply_gaussians_ok z2 R2 x P HP2).
  cbn [bind mean variance fst snd].
  rewrite (multiply_gaussians_ok z2 R2 _ _ Hd1).
  rewrite (multiply_gaussians_ok z1 R1 _ _ Hd2).
  split; [|eauto].
  f_equal.
  f_equal; field; repeat split; auto;
    apply Qc_pos_neq; clear - HP H1 H2; to_Q; nra.
Qed.

Lemma update_twice_commutes_witness :
  (let* b1 := multiply_gaussians (q 1 1) (q 2 1) (q 0 1) (q 4 1) in
   multiply_gaussians (q 3 1) (q 1 1) (mean b1) (variance b1))
  = (let* b2 := multiply_gaussians (q 3 1) (q 1 1) (q 0 1) (q 4 1) in
     multiply_gaussians (q 1 1) (q 2 1) (mean b2) (variance b2)).
Proof.
  apply (update_twice_commutes
           (q 1 1) (q 2 1) (q 3 1) (q 1 1) (q 0 1) (q 4 1));
    reflexivity.
Defined.

(** ** The loop of [kalman_filtering] *)

Lemma nth_error_last {A : Type} (l : list A) (n : nat) (a : A) :
  length l = n -> nth_error (l ++ [a]) n = Some a.
Proof.
  intros Hn. rewrite nth_error_app2 by lia.
  replace (n - length l)%nat with O by lia. reflexivity.
Qed.

(** From the second measurement on, with both lists as long as the index,
    every list access is in range and the loop is the recursion on the
    previous estimate. *)
Lemma kf_loop_steps (R u Q : Qc) (z_all : list Qc) :
  forall (i : nat) (x_pred x_est : list belief) (prev : belief),
    length x_pred = S i -> length x_est = i ->
    kf_loop R u Q z_all (S i) x_pred (x_est ++ [prev])
    = match kf_steps R u Q z_all prev with
      | Ok r => Completed (x_pred ++ fst r) ((x_est ++ [prev]) ++ snd r)
      | Raise e => Raised e
      end.
Proof.
  induction z_all as [|z rest IH]; intros i x_pred x_est prev Hp He.
  - cbn. now rewrite !app_nil_r.
  - cbn [kf_loop kf_steps Nat.eqb].
    replace (S i - 1)%nat with i by lia.
    rewrite (nth_error_last x_est i prev He). cbv zeta.
    rewrite (nth_error_last x_pred (S i) _ Hp).
    destruct (multiply_gaussians z R _ _) as [est|e]; cbn [bind]; auto.
    rewrite (IH (S i)) by (rewrite length_app; cbn; lia).
    destruct (kf_steps R u Q rest est) as [[ps es]|e]; cbn [bind fst snd]; auto.
    now rewrite <- !app_assoc.
Qed.

Lemma kalman_filtering_on_cons (R u Q z : Qc) (rest : list Qc) :
  kalman_filtering_on R u Q (z :: rest)
  = match multiply_gaussians z R (x0 + u) P0 with
    | Raise e => Raised e
    | Ok est =>
        match kf_steps R u Q rest est with
        | Ok r => Completed (add_gaussians x0 P0 u Q :: fst r) (est :: snd r)
        | Raise e => Raised e
        end
    end.
Proof.
  unfold kalman_filtering_on. cbn [kf_loop Nat.eqb app nth_error].
  change (mean (add_gaussians x0 P0 u Q)) with (x0 + u).
  destruct (multiply_gaussians z R (x0 + u) P0) as [est|e]; auto.
  apply (kf_loop_steps R u Q rest O [add_gaussians x0 P0 u Q] [] est);
    reflexivity.
Qed.

(** X8. Whatever the arguments and the measurements, the loop never indexes
    a list out of range. *)
Theorem kalman_filtering_no_index_error
        (N : nat) (R u Q : Qc) (noise z_all : list Qc) :
  kalman_filtering_on R u Q z_all <> IndexError /\
  kalman_filtering N R u Q noise <> IndexError.
Proof.
  assert (H : forall zs, kalman_filtering_on R u Q zs <> IndexError).
  { intros [|z rest]; [discriminate|].
    rewrite kalman_filtering_on_cons.
    destruct (multiply_gaussians z R (x0 + u) P0) as [est|e];
      [|discriminate].
    destruct (kf_steps R u Q rest est) as [r|e]; discriminate. }
  split; apply H.
Qed.

Lemma measurements_length (N : nat) (R : Qc) (noise : list Qc) :
  length noise = N -> length (measurements N R noise) = N.
Proof.
  intros Hn. unfold measurements.
  rewrite length_map, length_combine, length_seq. lia.
Qed.

Lemma kf_steps_invariants (R u Q : Qc) (z_all : list Qc) :
  0 <= R -> 0 <= Q -> R + Q <> 0 ->
  forall prev : belief,
    0 <= variance prev ->
    exists ps es,
      kf_steps R u Q z_all prev = Ok (ps, es) /\
      length ps = length z_all /\ length es = length z_all /\
      Forall (fun p => Q <= variance p) ps /\
      Forall (fun e => 0 <= variance e /\ variance e <= R) es.
Proof.
  intros HR HQ Hne.
  pose proof (Qc_sum_pos R Q HR HQ Hne) as Hpos.
  induction z_all as [|z rest IH]; intros prev Hprev.
  - exists [], []. repeat split; constructor.
  - cbn [kf_steps]. unfold add_gaussians. cbn [mean variance fst snd].
    assert (HP : 0 <= variance prev + Q) by now apply Qc_sum_nonneg.
    assert (HQP : Q <= variance prev + Q) by (clear - Hprev; to_Q; lra).
    assert (Hden : variance prev + Q + R <> 0)
      by (apply Qc_pos_neq; clear - Hprev Hpos; to_Q; lra).
    rewrite multiply_gaussians_ok by assumption. cbn [bind].
    destruct (Qc_posterior_le _ _ HP HR Hden) as [_ HleR].
    pose proof (Qc_product_over_sum_nonneg _ _ HP HR Hden) as Hnn.
    match goal with
    | |- context [kf_steps R u Q rest ?b] =>
        destruct (IH b Hnn) as (ps & es & Hsteps & Hlp & Hle & Hps & Hes)
    end.
    rewrite Hsteps. cbn [bind fst snd].
    eexists. eexists. split; [reflexivity|].
    cbn [length]. repeat split; try congruence;
      constructor; cbn [variance snd]; auto.
Qed.

Lemma kalman_filtering_on_invariants (R u Q : Qc) (z_all : list Qc) :
  0 <= R -> 0 <= Q -> R + Q <> 0 ->
  exists x_pred x_est,
    kalman_filtering_on R u Q z_all = Completed x_pred x_est /\
    length x_pred = length z_all /\ length x_est = length z_all /\
    Forall (fun p => Q <= variance p) x_pred /\
    Forall (fun e => 0 <= variance e /\ variance e <= R) x_est.
Proof.
  intros HR HQ Hne. destruct z_all as [|z rest].
  - exists [], []. repeat split; constructor.
  - rewrite kalman_filtering_on_cons.
    assert (HP0 : 0 <= P0) by discriminate.
    assert (Hden : P0 + R <> 0).
    { apply Qc_pos_neq. apply Qc_add_pos_nonneg; [reflexivity|assumption]. }
    rewrite multiply_gaussians_ok by assumption.
    destruct (Qc_posterior_le _ _ HP0 HR Hden) as [_ HleR].
    pose proof (Qc_product_over_sum_nonneg _ _ HP0 HR Hden) as Hnn.
    match goal with
    | |- context [kf_steps R u Q rest ?b] =>
        destruct (kf_steps_invariants R u Q rest HR HQ Hne b Hnn)
          as (ps & es & Hsteps & Hlp & Hle & Hps & Hes)
    end.
    rewrite Hsteps. cbn [fst snd].
    eexists. eexists. split; [reflexivity|].
    cbn [length]. repeat split; try congruence;
      constructor; cbn [add_gaussians variance snd]; auto.
    clear - HQ. unfold P0, q. to_Q. lra.
Qed.

(** X9. With R >= 0 and Q >= 0, not both zero (the sliders give R >= 0 and
    Q >= 1), the cell raises nothing on N noise samples and ends with N
    predictions and N estimates. *)
Theorem kalman_filtering_completes
        (N : nat) (R u Q : Qc) (noise : list Qc) :
  length noise = N -> 0 <= R -> 0 <= Q -> R + Q <> 0 ->
  exists x_pred x_est,
    kalman_filtering N R u Q noise = Completed x_pred x_est /\
    length x_pred = N /\ length x_est = N.
Proof.
  intros Hn HR HQ Hne. unfold kalman_filtering.
  destruct (kalman_filtering_on_invariants R u Q (measurements N R noise)
              HR HQ Hne) as (xp & xe & Hrun & Hlp & Hle & _).
  rewrite measurements_length in Hlp, Hle by assumption.
  exists xp, xe. auto.
Qed.

Lemma kalman_filtering_completes_witness :
  exists x_pred x_est,
    kalman_filtering 2 (q 1 1) (q 1 1) (q 2 1) [q 1 2; q (-1) 2]
    = Completed x_pred x_est /\
    length x_pred = 2%nat /\ length x_est = 2%nat.
Proof.
  apply (kalman_filtering_completes
           2 (q 1 1) (q 1 1) (q 2 1) [q 1 2; q (-1) 2]);
    [reflexivity | discriminate | discriminate | discriminate].
Defined.

(** X10. In exact arithmetic, with R >= 0 and Q >= 0, not both zero, every
    estimated variance (the plotted error bar) lies between 0 and R, and
    every predicted variance is at least Q. *)
Theorem kalman_filtering_variance_bounds (R u Q : Qc) (z_all : list Qc) :
  0 <= R -> 0 <= Q -> R + Q <> 0 ->
  exists x_pred x_est,
    kalman_filtering_on R u Q z_all = Completed x_pred x_est /\
    Forall (fun p => Q <= variance p) x_pred /\
    Forall (fun e => 0 <= variance e /\ variance e <= R) x_est.
Proof.
  intros HR HQ Hne.
  destruct (kalman_filtering_on_invariants R u Q z_all HR HQ Hne)
    as (xp & xe & Hrun & _ & _ & Hps & Hes).
  exists xp, xe. auto.
Qed.

Lemma kalman_filtering_variance_bounds_witness :
  exists x_pred x_est,
    kalman_filtering_on (q 1 1) (q 1 1) (q 2 1) [q 1 2; q 1 2]
    = Completed x_pred x_est /\
    Forall (fun p => q 2 1 <= variance p) x_pred /\
    Forall (fun e => 0 <= variance e /\ variance e <= q 1 1) x_est.
Proof.
  apply (kalman_filtering_variance_bounds
           (q 1 1) (q 1 1) (q 2 1) [q 1 2; q 1 2]); discriminate.
Defined.

Lemma Qc_posterior_increases (P R Q : Qc) :
  0 < P -> 0 < R -> 0 < Q ->
  P * R / (P + R) < (P + Q) * R / (P + Q + R).
Proof.
  intros HP HR HQ.
  pose proof (Qc_add_pos _ _ HP HR) as HPR.
  pose proof (Qc_add_pos _ _ (Qc_add_pos _ _ HP HQ) HR) as HPQR.
  apply Qclt_minus_iff.
  replace ((P + Q) * R / (P + Q + R) + - (P * R / (P + R)))
    with (Q * R * R / ((P + R) * (P + Q + R)))
    by (field; split; apply Qc_pos_neq; assumption).
  apply Qc_div_pos; repeat apply Qc_mul_pos; assumption.
Qed.

(** X11. The first estimate is computed from the initial variance 100, not
    from the variance of the first prediction: it is
    multiply_gaussians(z, R, x_pred[0][0], 100), and in exact arithmetic,
    with R > 0 and Q > 0, it is not what multiply_gaussians returns on the
    first prediction (x_pred[0][0], x_pred[0][1]). *)
Theorem first_estimate_uses_initial_variance
        (R u Q z : Qc) (rest : list Qc) (x_pred x_est : list belief) :
  0 < R -> 0 < Q ->
  kalman_filtering_on R u Q (z :: rest) = Completed x_pred x_est ->
  exists p e,
    hd_error x_pred = Some p /\ hd_error x_est = Some e /\
    p = (x0 + u, P0 + Q) /\
    multiply_gaussians z R (mean p) P0 = Ok e /\
    multiply_gaussians z R (mean p) (variance p) <> Ok e.
Proof.
  intros HR HQ Hrun. rewrite kalman_filtering_on_cons in Hrun.
  destruct (multiply_gaussians z R (x0 + u) P0) as [est|e] eqn:Hest;
    [|discriminate].
  destruct (kf_steps R u Q rest est) as [r|e]; [|discriminate].
  injection Hrun as <- <-.
  exists (x0 + u, P0 + Q), est. cbn [hd_error mean variance fst snd].
  repeat split; auto.
  assert (HP0 : 0 < P0) by reflexivity.
  rewrite multiply_gaussians_ok in Hest
    by (apply Qc_pos_neq, Qc_add_pos; assumption).
  rewrite multiply_gaussians_ok
    by (apply Qc_pos_neq; repeat apply Qc_add_pos; assumption).
  intros Heq. rewrite <- Hest in Heq.
  apply (f_equal (fun r => match r with
                           | Ok b => variance b
                           | Raise _ => 0
                           end)) in Heq.
  cbn [variance snd] in Heq.
  pose proof (Qc_posterior_increases P0 R Q HP0 HR HQ) as Hlt.
  rewrite Heq in Hlt. exact (Qclt_not_eq _ _ Hlt eq_refl).
Qed.

Lemma first_estimate_uses_initial_variance_witness :
  exists p e,
    hd_error [(q 1 1, q 102 1); (q 152 101, q 302 101)] = Some p /\
    hd_error [(q 51 101, q 100 101); (q 303 403, q 302 403)] = Some e /\
    p = (x0 + q 1 1, P0 + q 2 1) /\
    multiply_gaussians (q 1 2) (q 1 1) (mean p) P0 = Ok e /\
    multiply_gaussians (q 1 2) (q 1 1) (mean p) (variance p) <> Ok e.
Proof.
  apply (first_estimate_uses_initial_variance
           (q 1 1) (q 1 1) (q 2 1) (q 1 2) [q 1 2]);
    [reflexivity | reflexivity |].
  vm_compute. apply f_equal2; qc_eval.
Defined.

Lemma kf_steps_nth (R u Q : Qc) (z_all : list Qc) :
  forall (prev : belief) (ps es : list belief),
    kf_steps R u Q z_all prev = Ok (ps, es) ->
    forall (i : nat) (a p e : belief) (z : Qc),
      nth_error (prev :: es) i = Some a ->
      nth_error ps i = Some p ->
      nth_error es i = Some e ->
      nth_error z_all i = Some z ->
      p = add_gaussians (mean a) (variance a) u Q /\
      multiply_gaussians z R (mean p) (variance p) = Ok e.
Proof.
  induction z_all as [|z0 rest IH]; intros prev ps es Hsteps i a p e z.
  - destruct i; discriminate.
  - cbn [kf_steps] in Hsteps.
    destruct (multiply_gaussians z0 R _ _) as [est|ex] eqn:Hest;
      [|discriminate].
    cbn [bind] in Hsteps.
    destruct (kf_steps R u Q rest est) as [[ps' es']|ex] eqn:Hrest;
      [|discriminate].
    cbn [bind fst snd] in Hsteps. injection Hsteps as <- <-.
    destruct i as [|i]; cbn [nth_error].
    + intros Ha Hp He Hz.
      injection Ha as <-. injection Hp as <-.
      injection He as <-. injection Hz as <-. auto.
    + now apply (IH est ps' es').
Qed.

(** X12. From the second measurement on the loop threads the filter: when
    it completes, x_pred[i+1] is add_gaussians applied to x_est[i] with
    (u, Q), and x_est[i+1] is what multiply_gaussians returns on
    z_all[i+1] and x_pred[i+1]. *)
Theorem kalman_filtering_recurrence
        (R u Q : Qc) (z_all : list Qc) (x_pred x_est : list belief)
        (i : nat) (prev p e : belief) (z : Qc) :
  kalman_filtering_on R u Q z_all = Completed x_pred x_est ->
  nth_error x_est i = Some prev ->
  nth_error x_pred (S i) = Some p ->
  nth_error x_est (S i) = Some e ->
  nth_error z_all (S i) = Some z ->
  p = add_gaussians (mean prev) (variance prev) u Q /\
  multiply_gaussians z R (mean p) (variance p) = Ok e.
Proof.
  intros Hrun Hprev Hp He Hz.
  destruct z_all as [|z0 rest]; [discriminate Hz|].
  rewrite kalman_filtering_on_cons in Hrun.
  destruct (multiply_gaussians z0 R (x0 + u) P0) as [est|ex];
    [|discriminate].
  destruct (kf_steps R u Q rest est) as [[ps es]|ex] eqn:Hsteps;
    [|discriminate].
  cbn [fst snd] in Hrun. injection Hrun as <- <-.
  cbn [nth_error] in Hp, He, Hz.
  exact (kf_steps_nth R u Q rest est ps es Hsteps i prev p e z
           Hprev Hp He Hz).
Qed.

Lemma kalman_filtering_recurrence_witness :
  (q 152 101, q 302 101)
  = add_gaussians (mean (q 51 101, q 100 101))
                  (variance (q 51 101, q 100 101)) (q 1 1) (q 2 1) /\
  multiply_gaussians (q 1 2) (q 1 1) (mean (q 152 101, q 302 101))
                     (variance (q 152 101, q 302 101))
  = Ok (q 303 403, q 302 403).
Proof.
  apply (kalman_filtering_recurrence
           (q 1 1) (q 1 1) (q 2 1) [q 1 2; q 1 2]
           [(q 1 1, q 102 1); (q 152 101, q 302 101)]
           [(q 51 101, q 100 101); (q 303 403, q 302 403)] O);
    try reflexivity.
  vm_compute. apply f_equal2; qc_eval.
Defined.

Lemma kf_steps_variances (R u u' Q : Qc) (z_all : list Qc) :
  forall (z_all' : list Qc) (prev prev' : belief),
    length z_all = length z_all' ->
    variance prev = variance prev' ->
    match kf_steps R u Q z_all prev, kf_steps R u' Q z_all' prev' with
    | Ok r, Ok r' =>
        map variance (fst r) = map variance (fst r') /\
        map variance (snd r) = map variance (snd r')
    | Raise _, Raise _ => True
    | _, _ => False
    end.
Proof.
  induction z_all as [|z rest IH]; intros [|z' rest'] prev prev' Hlen Hvar;
    try discriminate Hlen.
  - cbn. auto.
  - cbn [kf_steps]. unfold add_gaussians. cbn [mean variance fst snd].
    rewrite <- Hvar.
    destruct (Qc_eq_dec (snd prev + Q + R) 0) as [H0|Hne].
    + now rewrite !multiply_gaussians_zero by assumption.
    + rewrite !multiply_gaussians_ok by assumption. cbn [bind].
      match goal with
      | |- context [kf_steps R u Q rest ?b] =>
          match goal with
          | |- context [kf_steps R u' Q rest' ?b'] =>
              specialize (IH rest' b b')
          end
      end.
      cbn [length] in Hlen. injection Hlen as Hlen.
      specialize (IH Hlen eq_refl).
      destruct (kf_steps R u Q rest _) as [r|e];
        destruct (kf_steps R u' Q rest' _) as [r'|e']; cbn [bind]; auto.
      destruct IH as [Hp He]. cbn [fst snd map variance].
      split; f_equal; assumption.
Qed.

Lemma kf_steps_raises (R u Q : Qc) (z_all : list Qc) :
  forall (prev : belief) (e : exn),
    kf_steps R u Q z_all prev = Raise e -> e = ZeroDivisionError.
Proof.
  induction z_all as [|z rest IH]; intros prev e; cbn [kf_steps];
    [discriminate|].
  unfold multiply_gaussians, kalman_gain, pdiv.
  destruct (Qc_eq_dec _ 0); cbn [bind]; [congruence|].
  destruct (kf_steps R u Q rest _) as [r|e'] eqn:Hk; cbn [bind];
    [discriminate|].
  intros H. injection H as <-. exact (IH _ _ Hk).
Qed.

(** X13. The variances do not depend on the data: runs with the same R and
    Q over equally many measurements, whatever the measurements and the
    control input u, end the same way and, when they complete, with the
    same predicted and estimated variances. *)
Theorem kalman_filtering_variances_data_independent
        (R u u' Q : Qc) (z_all z_all' : list Qc) :
  length z_all = length z_all' ->
  variances (kalman_filtering_on R u Q z_all)
  = variances (kalman_filtering_on R u' Q z_all')
  /\ (kalman_filtering_on R u Q z_all = Raised ZeroDivisionError
      <-> kalman_filtering_on R u' Q z_all' = Raised ZeroDivisionError).
Proof.
  intros Hlen.
  destruct z_all as [|z rest]; destruct z_all' as [|z' rest'];
    try discriminate Hlen.
  - split; reflexivity.
  - rewrite !kalman_filtering_on_cons.
    destruct (Qc_eq_dec (P0 + R) 0) as [H0|Hne].
    + rewrite !multiply_gaussians_zero by assumption. split; reflexivity.
    + rewrite !multiply_gaussians_ok by assumption.
      cbn [length] in Hlen. injection Hlen as Hlen.
      match goal with
      | |- context [kf_steps R u Q rest ?b] =>
          match goal with
          | |- context [kf_steps R u' Q rest' ?b'] =>
              pose proof (kf_steps_variances R u u' Q rest rest' b b'
                            Hlen eq_refl) as Hsteps
          end
      end.
      destruct (kf_steps R u Q rest _) as [r|e] eqn:Hr;
        destruct (kf_steps R u' Q rest' _) as [r'|e'] eqn:Hr';
        cbn [variances]; try contradiction.
      * destruct Hsteps as [Hp He]. cbn [map add_gaussians variance snd].
        split; [|split; discriminate].
        f_equal. f_equal; f_equal; assumption.
      * apply kf_steps_raises in Hr, Hr'. subst e e'.
        split; reflexivity.
Qed.

Lemma kalman_filtering_variances_data_independent_witness :
  variances (kalman_filtering_on (q 1 1) (q 1 1) (q 2 1) [q 1 2; q 1 2])
  = variances (kalman_filtering_on (q 1 1) (q 0 1) (q 2 1) [q 7 1; q 9 1]).
Proof.
  apply (kalman_filtering_variances_data_independent
           (q 1 1) (q 1 1) (q 0 1) (q 2 1) [q 1 2; q 1 2] [q 7 1; q 9 1]).
  reflexivity.
Defined.

Lemma measurements_noiseless (N : nat) (noise : list Qc) :
  length noise = N -> measurements N 0 noise = map Qc_of_nat (seq 0 N).
Proof.
  intros Hn. unfold measurements.
  assert (H : forall (l : list nat) (es : list Qc),
             length es = length l ->
             map (fun p => Qc_of_nat (fst p) + 0 * snd p) (combine l es)
             = map Qc_of_nat l).
  { induction l as [|i l IH]; intros [|e es] Hl; try discriminate Hl; auto.
    cbn [combine map fst snd]. f_equal.
    - ring.
    - apply IH. now injection Hl. }
  apply H. now rewrite length_seq.
Qed.

Lemma kf_steps_noiseless (u Q : Qc) (z_all : list Qc) :
  Q <> 0 ->
  forall prev : belief,
    variance prev = 0 ->
    exists ps,
      kf_steps 0 u Q z_all prev = Ok (ps, map (fun z => (z, 0)) z_all) /\
      length ps = length z_all.
Proof.
  intros HQ. induction z_all as [|z rest IH]; intros prev Hprev.
  - exists []. split; reflexivity.
  - destruct prev as [m v]. cbn [variance snd] in Hprev. subst v.
    cbn [kf_steps]. unfold add_gaussians. cbn [mean variance fst snd].
    rewrite multiply_gaussians_noiseless
      by (rewrite Qcplus_0_l; exact HQ).
    cbn [bind].
    destruct (IH (z, 0) eq_refl) as (ps & Hsteps & Hlen).
    rewrite Hsteps. cbn [bind fst snd map].
    eexists. split; [reflexivity|]. cbn [length]. congruence.
Qed.

Lemma kalman_filtering_on_noiseless (u Q : Qc) (z_all : list Qc) :
  Q <> 0 ->
  exists x_pred,
    kalman_filtering_on 0 u Q z_all
    = Completed x_pred (map (fun z => (z, 0)) z_all) /\
    length x_pred = length z_all.
Proof.
  intros HQ. destruct z_all as [|z rest].
  - exists []. split; reflexivity.
  - rewrite kalman_filtering_on_cons.
    rewrite multiply_gaussians_noiseless by discriminate.
    destruct (kf_steps_noiseless u Q rest HQ (z, 0) eq_refl)
      as (ps & Hsteps & Hlen).
    rewrite Hsteps. cbn [fst snd map].
    eexists. split; [reflexivity|]. cbn [length]. congruence.
Qed.

(** X14. In exact arithmetic, with R = 0 (the lowest slider position) and
    Q not zero, the measurements are 0, 1, ..., N-1 whatever the noise
    samples, and the estimates are these measurements with variance 0. *)
Theorem kalman_filtering_noiseless
        (N : nat) (u Q : Qc) (noise : list Qc) :
  length noise = N -> Q <> 0 ->
  exists x_pred,
    kalman_filtering N 0 u Q noise
    = Completed x_pred (map (fun i => (Qc_of_nat i, 0)) (seq 0 N)) /\
    length x_pred = N.
Proof.
  intros Hn HQ. unfold kalman_filtering.
  rewrite (measurements_noiseless N noise Hn).
  destruct (kalman_filtering_on_noiseless u Q (map Qc_of_nat (seq 0 N)) HQ)
    as (xp & Hrun & Hlen).
  exists xp. rewrite Hrun, map_map. split; [reflexivity|].
  now rewrite Hlen, length_map, length_seq.
Qed.

Lemma kalman_filtering_noiseless_witness :
  exists x_pred,
    kalman_filtering 3 0 (q 1 1) (q 2 1) [q 1 2; q (-1) 2; q 5 1]
    = Completed x_pred (map (fun i => (Qc_of_nat i, 0)) (seq 0 3)) /\
    length x_pred = 3%nat.
Proof.
  apply (kalman_filtering_noiseless
           3 (q 1 1) (q 2 1) [q 1 2; q (-1) 2; q 5 1]);
    [reflexivity | discriminate].
Defined.

(** X15. With R = 0 and Q = 0 the second measurement already divides by
    zero: over two or more measurements the loop raises
    [ZeroDivisionError], whatever the measurements and u. *)
Theorem kalman_filtering_degenerate (u z1 z2 : Qc) (rest : list Qc) :
  kalman_filtering_on 0 u 0 (z1 :: z2 :: rest) = Raised ZeroDivisionError
  /\ exists x_pred x_est,
       kalman_filtering_on 0 u 0 [z1] = Completed x_pred x_est.
Proof.
  split.
  - rewrite kalman_filtering_on_cons.
    rewrite multiply_gaussians_noiseless by discriminate.
    cbn [kf_steps]. unfold add_gaussians. cbn [mean variance fst snd].
    rewrite multiply_gaussians_zero by ring. reflexivity.
  - rewrite kalman_filtering_on_cons.
    rewrite multiply_gaussians_noiseless by discriminate.
    cbn [kf_steps fst snd]. eauto.
Qed.
